(** * html_fragmenter.msg_split

    A shallow embedding of [src/html_fragmenter/msg_split.py]: the class
    [HTMLSplitter] and the generator [split_message], which cut an HTML
    message into fragments of at most [max_len] characters.

    The program works on the tree that BeautifulSoup builds.  The part of
    that library the program relies on is embedded here as well: the node
    tree, what [str(x)] returns for a node, how a tree is written back to
    markup, and [str.strip].  The parser itself stays a parameter of the
    driver; a small reference parser for tag-and-text markup is given for
    the concrete runs.

    [_get_parent_tags] walks the parent links of a node; nothing in the
    module calls it, and the tree here carries no parent links. *)

From Stdlib Require Import List ZArith NArith Bool Lia String Ascii.
From Stdlib Require Import DecimalString.
Import ListNotations.
Open Scope Z_scope.

#[local] Set Warnings "-register-all".

(** ** Python strings *)

(** A Python [str] is a sequence of Unicode code points. *)
Definition pystr := list N.

(** A literal, written with the characters of an ASCII string. *)
Definition u (s : string) : pystr := map N_of_ascii (list_ascii_of_string s).

(** [len(s)] *)
Definition len (s : pystr) : Z := Z.of_nat (List.length s).


(** [c.isspace()] for one code point: the characters [str.strip()] removes. *)
Definition isspace (c : N) : bool :=
  ((9 <=? c) && (c <=? 13) || (28 <=? c) && (c <=? 32)
   || (c =? 133) || (c =? 160) || (c =? 5760)
   || (8192 <=? c) && (c <=? 8202)
   || (c =? 8232) || (c =? 8233) || (c =? 8239) || (c =? 8287)
   || (c =? 12288))%N.

Fixpoint lstrip (s : pystr) : pystr :=
  match s with
  | c :: s' => if isspace c then lstrip s' else s
  | [] => []
  end.

(** [s.strip()] *)
Definition strip (s : pystr) : pystr := rev (lstrip (rev (lstrip s))).

(** Truth value of a string: [bool(s)], false for the empty string only. *)
Definition truthy {A} (l : list A) : bool :=
  match l with [] => false | _ :: _ => true end.

(** ** The BeautifulSoup tree *)

(** The two kinds of node the splitter tells apart with [isinstance]:
    [NavigableString] (a run of text) and [Tag] (an element with its name, its
    attributes in order, the builder's void-element flag and its
    [contents]).  An attribute with several values, such as [class], is held
    as the values joined by spaces, the way it is written out. *)
Inductive node : Type :=
| NavigableString (text : pystr)
| Tag (name : pystr) (attrs : list (pystr * pystr))
      (can_be_empty_element : bool) (contents : list node).

(** A [BeautifulSoup] object, as far as the splitter uses it: the list of its
    top-level children. *)
Definition soup := list node.

Definition is_Tag (n : node) : bool :=
  match n with Tag _ _ _ _ => true | NavigableString _ => false end.

Definition is_NavigableString (n : node) : bool :=
  match n with NavigableString _ => true | Tag _ _ _ _ => false end.

(** [element.contents] and [element.children]; a string has none. *)
Definition contents_of (n : node) : list node :=
  match n with Tag _ _ _ contents => contents | NavigableString _ => [] end.

(** *** Serialisation *)

Definition chr_amp : N := 38.
Definition chr_lt : N := 60.
Definition chr_gt : N := 62.
Definition chr_dquote : N := 34.
Definition chr_squote : N := 39.
Definition chr_slash : N := 47.

(** The "minimal" output formatter ([EntitySubstitution.substitute_xml]):
    ampersands and angle brackets of a text are written as entities. *)
Definition substitute_xml (s : pystr) : pystr :=
  flat_map (fun c =>
    if (c =? chr_amp)%N then u "&amp;"
    else if (c =? chr_lt)%N then u "&lt;"
    else if (c =? chr_gt)%N then u "&gt;"
    else [c]) s.

Definition mem (c : N) (s : pystr) : bool := existsb (N.eqb c) s.

(** [quoted_attribute_value]: double quotes, unless the value has a double
    quote; then single quotes, unless it has both, and then the double
    quotes are written as entities. *)
Definition quoted_attribute_value (v : pystr) : pystr :=
  if mem chr_dquote v then
    if mem chr_squote v then
      [chr_dquote]
        ++ flat_map (fun c => if (c =? chr_dquote)%N then u "&quot;" else [c]) v
        ++ [chr_dquote]
    else [chr_squote] ++ v ++ [chr_squote]
  else [chr_dquote] ++ v ++ [chr_dquote].

(** The attribute string of a start tag: [' key="value"'] for each one. *)
Definition attribute_string (attrs : list (pystr * pystr)) : pystr :=
  flat_map (fun kv =>
    u " " ++ fst kv ++ u "="
      ++ quoted_attribute_value (substitute_xml (snd kv)))
    attrs.

(** [Tag.decode()] and [NavigableString.output_ready()]: the markup of a
    node inside a tree. *)
Fixpoint decode (n : node) : pystr :=
  match n with
  | NavigableString text => substitute_xml text
  | Tag name attrs can_be_empty_element contents =>
      if can_be_empty_element && negb (truthy contents) then
        [chr_lt] ++ name ++ attribute_string attrs ++ [chr_slash; chr_gt]
      else
        [chr_lt] ++ name ++ attribute_string attrs ++ [chr_gt]
          ++ flat_map decode contents
          ++ [chr_lt; chr_slash] ++ name ++ [chr_gt]
  end.

(** [str(soup)] of a [BeautifulSoup] object: its children one after the
    other. *)
Definition str_soup (s : soup) : pystr := flat_map decode s.

(** [str(element)].  For a [Tag] this is [decode()].  A [NavigableString] is
    a Python [str]: [str()] of it is its text as it stands, with no entity
    written. *)
Definition str_element (n : node) : pystr :=
  match n with
  | NavigableString text => text
  | Tag _ _ _ _ => decode n
  end.

(** ** The generator *)

(** [FragmentationError], told apart by its message. *)
Inductive FragmentationError : Type :=
| CannotBeSplit (element_length : Z)
    (* "Element of length {element_length} cannot be split" *)
| NoSplitPoint
    (* "Cannot find suitable split point" *)
| FirstPartTooLong.
    (* "First part exceeds maximum length" *)

(** How a run of the generator ends: it returns, it raises, or the nesting of
    recursive calls passes the interpreter's limit. *)
Inductive ending : Type :=
| Returned
| Raised (e : FragmentationError)
| RecursionLimit.

(** What a consumer of the generator sees: the fragments in the order they
    were yielded, then the ending. *)
Record run : Type := Run { yielded : list pystr; final : ending }.

Definition ret : run := Run [] Returned.
Definition raise (e : FragmentationError) : run := Run [] (Raised e).

(** [yield x], then the rest of the body. *)
Definition yield (x : pystr) (k : run) : run := Run (x :: yielded k) (final k).

(** [yield from g], then the rest of the body: when [g] does not return
    normally the body is left at that point. *)
Definition yield_from (g : run) (k : run) : run :=
  match final g with
  | Returned => Run (yielded g ++ yielded k) (final k)
  | _ => g
  end.

(** ** HTMLSplitter *)

Section HTMLSplitter.

(** [self.max_len] *)
Variable max_len : Z.

(** [BeautifulSoup(source, 'html.parser')], as the list of the top-level
    children of the tree it builds. *)
Variable parse : pystr -> soup.

(** [_copy_tag_with_attrs]: a new tag of the same name and attributes, with
    no children. *)
Definition _copy_tag_with_attrs (tag : node) : node :=
  match tag with
  | Tag name attrs _ _ => Tag name attrs false []
  | NavigableString _ => tag
  end.

(** [_estimate_length] *)
Definition _estimate_length (s : soup) : Z := len (str_soup s).

(** The loop of [_find_split_point] over the children from position
    [index] on.  The child is returned with its position: the caller finds it
    again by identity ([child is split_point]), not by value. *)
Fixpoint find_from (children : list node) (index : nat) (current_length : Z)
  : option (nat * node) :=
  match children with
  | [] => None
  | child :: rest =>
      if is_Tag child then
        let child_length := len (str_element child) in
        if current_length + child_length >? max_len then Some (index, child)
        else find_from rest (S index) (current_length + child_length)
      else find_from rest (S index) current_length
  end.

(** [_find_split_point] *)
Definition _find_split_point (element : node) (current_length : Z)
  : option (nat * node) :=
  if negb (is_Tag element) then None
  else find_from (contents_of element) 0 current_length.

(** [_can_be_split] *)
Definition _can_be_split (element : node) : bool :=
  if is_NavigableString element then false
  else if negb (truthy (contents_of element)) then false
  else existsb is_Tag (contents_of element).

(** [_create_fragment]: copies of the parent tags nested in order, the
    elements inside the innermost one.  A tag is copied; a string is added
    as [str(elem)]. *)
Fixpoint _create_fragment (elements : list node) (parent_tags : list node)
  : soup :=
  match parent_tags with
  | [] =>
      map (fun elem =>
             if is_Tag elem then elem else NavigableString (str_element elem))
          elements
  | parent :: inner =>
      match _copy_tag_with_attrs parent with
      | Tag name attrs e _ =>
          [Tag name attrs e (_create_fragment elements inner)]
      | new_parent => [new_parent]
      end
  end.

(** The body of the [for element in soup.children] loop of [split_message]
    and the final flush after it, with the recursive call [self.split_message]
    as [recur]. *)
Fixpoint scan (recur : pystr -> run) (children : list node)
  (current_elements : list node) (current_length : Z) : run :=
  match children with
  | [] =>
      if truthy current_elements then
        let fragment := _create_fragment current_elements [] in
        if truthy (strip (str_soup fragment))
        then yield (str_soup fragment) ret
        else ret
      else ret
  | element :: rest =>
      if is_NavigableString element
         && negb (truthy (strip (str_element element)))
      then scan recur rest current_elements current_length
      else
        let element_length := len (str_element element) in
        if element_length >? max_len then
          if negb (_can_be_split element) then
            raise (CannotBeSplit element_length)
          else
            match _find_split_point element 0 with
            | None => raise NoSplitPoint
            | Some (index, split_point) =>
                let first_part := firstn index (contents_of element) in
                if _estimate_length first_part <=? max_len then
                  yield (str_soup first_part)
                    (let remaining := skipn (S index) (contents_of element) in
                     yield_from (recur (str_soup remaining))
                       (scan recur rest current_elements current_length))
                else raise FirstPartTooLong
            end
        else if current_length + element_length >? max_len then
          let continue_ := scan recur rest [element] element_length in
          if truthy current_elements then
            yield (str_soup (_create_fragment current_elements [])) continue_
          else continue_
        else
          scan recur rest (current_elements ++ [element])
               (current_length + element_length)
  end.

(** [HTMLSplitter.split_message], run with room for [depth] nested calls. *)
Fixpoint split_message (depth : nat) (source : pystr) : run :=
  match depth with
  | O => Run [] RecursionLimit
  | S depth' =>
      if negb (truthy (strip source)) then ret
      else scan (split_message depth') (parse source) [] 0
  end.

End HTMLSplitter.

(** ** A reference parser *)

(** The tree [html.parser] builds for markup made of text, start tags
    [<name>] and end tags [</name>].  Attributes, void elements, comments and
    character references are outside what it reads; the concrete runs below
    use none of them. *)
Module HtmlParser.

Inductive token : Type :=
| Data (text : pystr)
| StartTag (name : pystr)
| EndTag (name : pystr).

Definition data_token (text : pystr) : list token :=
  match text with [] => [] | _ :: _ => [Data text] end.

Definition tag_token (body : pystr) : token :=
  match body with
  | c :: name => if (c =? chr_slash)%N then EndTag name else StartTag body
  | [] => StartTag []
  end.

(** The lexer: [acc] holds the characters of the current run of text, or of
    the current tag when [in_tag] is set, last first. *)
Fixpoint lex (in_tag : bool) (acc : pystr) (s : pystr) : list token :=
  match s with
  | [] => data_token (if in_tag then chr_lt :: rev acc else rev acc)
  | c :: s' =>
      if in_tag then
        if (c =? chr_gt)%N then tag_token (rev acc) :: lex false [] s'
        else lex true (c :: acc) s'
      else
        if (c =? chr_lt)%N then data_token (rev acc) ++ lex true [] s'
        else lex false (c :: acc) s'
  end.

Fixpoint str_eqb (a b : pystr) : bool :=
  match a, b with
  | [], [] => true
  | x :: a', y :: b' => (x =? y)%N && str_eqb a' b'
  | _, _ => false
  end.

(** An open element: its name, and the children its parent had before it,
    last first. *)
Definition frame : Type := pystr * list node.

(** Closing the innermost open element, whose children so far are [cur]. *)
Definition pop (cur : list node) (fr : frame) : list node :=
  Tag (fst fr) [] false (rev cur) :: snd fr.

(** An end tag closes the open elements up to the nearest one of its name. *)
Fixpoint pop_to (name : pystr) (cur : list node) (stack : list frame)
  : list node * list frame :=
  match stack with
  | [] => (cur, [])
  | fr :: stack' =>
      if str_eqb (fst fr) name then (pop cur fr, stack')
      else pop_to name (pop cur fr) stack'
  end.

Fixpoint build (tokens : list token) (cur : list node) (stack : list frame)
  : soup :=
  match tokens with
  | [] => rev (fold_left pop stack cur)
  | Data text :: ts => build ts (NavigableString text :: cur) stack
  | StartTag name :: ts => build ts [] ((name, cur) :: stack)
  | EndTag name :: ts =>
      if existsb (fun fr => str_eqb (fst fr) name) stack then
        let (cur', stack') := pop_to name cur stack in build ts cur' stack'
      else build ts cur stack
  end.

Definition parse (source : pystr) : soup := build (lex false [] source) [] [].

End HtmlParser.

(** The module-level [split_message(source, max_len)], with the reference
    parser. *)
Definition split_message_html (source : pystr) (max_len : Z) (depth : nat)
  : run :=
  split_message max_len HtmlParser.parse depth source.

(** ** What the specification's words say, where a claim is compared with
       the code *)

(** The split-point locator as the specification words it: every direct
    child adds its estimated length, and the first child that takes the
    running total past the limit is returned. *)
Fixpoint first_overflow (max_len : Z) (children : list node) (index : nat)
  (total : Z) : option (nat * node) :=
  match children with
  | [] => None
  | child :: rest =>
      let child_length := len (str_element child) in
      if total + child_length >? max_len then Some (index, child)
      else first_overflow max_len rest (S index) (total + child_length)
  end.

Definition locate_as_specified (max_len : Z) (element : node) (start : Z)
  : option (nat * node) :=
  first_overflow max_len (contents_of element) 0 start.

(** The driver skips a top-level string that is empty once stripped. *)
Definition skipped (element : node) : bool :=
  is_NavigableString element && negb (truthy (strip (str_element element))).

(** Total length that the [Tag]s among [children] add to the locator's
    running total. *)
Definition tags_length (children : list node) : Z :=
  fold_right (fun c acc => if is_Tag c then len (str_element c) + acc else acc)
             0 children.

(** The content of a tree: its strings that are not whitespace only, in
    document order. *)
Fixpoint texts (n : node) : list pystr :=
  match n with
  | NavigableString text => if truthy (strip text) then [text] else []
  | Tag _ _ _ contents => flat_map texts contents
  end.

Definition content (s : soup) : list pystr := flat_map texts s.

(** [a] is [b] with some of its items left out, the order kept. *)
Fixpoint subsequence (a b : list pystr) : bool :=
  match a, b with
  | [], _ => true
  | _ :: _, [] => false
  | x :: a', y :: b' =>
      if HtmlParser.str_eqb x y then subsequence a' b' else subsequence a b'
  end.

(** The running total of the loop, once the children before position [j]
    have been seen. *)
Definition running_total (children : list node) (start : Z) (j : nat) : Z :=
  start + tags_length (firstn j children).

(** A node that is neither skipped nor oversized: the loop goes past it
    without an error. *)
Definition passes (max_len : Z) (n : node) : Prop :=
  skipped n = true \/ len (str_element n) <= max_len.


(** A fragment within the limit. *)
Definition fits (max_len : Z) (fragment : pystr) : Prop :=
  len fragment <= max_len.

(** One turn of the loop, by the branch it takes. *)
Inductive turn (max_len : Z) (element : node) (acc : list node) (total : Z)
  : Prop :=
| turn_skip :
    skipped element = true ->
    (forall recur rest,
       scan max_len recur (element :: rest) acc total
       = scan max_len recur rest acc total) ->
    turn max_len element acc total
| turn_cannot_split :
    skipped element = false -> len (str_element element) > max_len ->
    _can_be_split element = false ->
    (forall recur rest,
       scan max_len recur (element :: rest) acc total
       = raise (CannotBeSplit (len (str_element element)))) ->
    turn max_len element acc total
| turn_no_split_point :
    skipped element = false -> len (str_element element) > max_len ->
    _can_be_split element = true ->
    _find_split_point max_len element 0 = None ->
    (forall recur rest,
       scan max_len recur (element :: rest) acc total = raise NoSplitPoint) ->
    turn max_len element acc total
| turn_first_part_too_long (i : nat) (split_point : node) :
    skipped element = false -> len (str_element element) > max_len ->
    _can_be_split element = true ->
    _find_split_point max_len element 0 = Some (i, split_point) ->
    _estimate_length (firstn i (contents_of element)) > max_len ->
    (forall recur rest,
       scan max_len recur (element :: rest) acc total
       = raise FirstPartTooLong) ->
    turn max_len element acc total
| turn_split (i : nat) (split_point : node) :
    skipped element = false -> len (str_element element) > max_len ->
    _can_be_split element = true ->
    _find_split_point max_len element 0 = Some (i, split_point) ->
    _estimate_length (firstn i (contents_of element)) <= max_len ->
    (forall recur rest,
       scan max_len recur (element :: rest) acc total
       = yield (str_soup (firstn i (contents_of element)))
           (yield_from (recur (str_soup (skipn (S i) (contents_of element))))
              (scan max_len recur rest acc total))) ->
    turn max_len element acc total
| turn_flush :
    skipped element = false -> len (str_element element) <= max_len ->
    total + len (str_element element) > max_len ->
    (forall recur rest,
       scan max_len recur (element :: rest) acc total
       = (if truthy acc
          then yield (str_soup (_create_fragment acc []))
                 (scan max_len recur rest [element]
                    (len (str_element element)))
          else scan max_len recur rest [element]
                 (len (str_element element)))) ->
    turn max_len element acc total
| turn_append :
    skipped element = false -> len (str_element element) <= max_len ->
    total + len (str_element element) <= max_len ->
    (forall recur rest,
       scan max_len recur (element :: rest) acc total
       = scan max_len recur rest (acc ++ [element])
           (total + len (str_element element))) ->
    turn max_len element acc total.

(** The top-level nodes the loop does not skip. *)
Definition kept (children : list node) : list node :=
  filter (fun n => negb (skipped n)) children.

(** The length the loop counts for a group of nodes: [len(str(element))],
    summed. *)
Definition measured (group : list node) : Z :=
  fold_right (fun n total => len (str_element n) + total) 0 group.

(** What the loop's accounting gives for a fragment: it is within the
    limit, or it is a group of top-level nodes whose counted lengths are. *)
Definition within_budget (max_len : Z) (fragment : pystr) : Prop :=
  len fragment <= max_len
  \/ exists group,
       group <> []
       /\ fragment = str_soup (_create_fragment group [])
       /\ measured group <= max_len.

(** ** The command line: [main.py] *)







(** * Properties *)

(** ** Strings *)

Lemma lstrip_all_space (s : pystr) :
  forallb isspace s = true -> lstrip s = [].
Proof.
  induction s as [|c s IH]; simpl; [reflexivity|].
  intros H. apply andb_true_iff in H as [Hc Hs].
  rewrite Hc. auto.
Qed.

Lemma strip_all_space (s : pystr) :
  forallb isspace s = true -> strip s = [].
Proof.
  intros H. unfold strip. rewrite (lstrip_all_space s H). reflexivity.
Qed.

Lemma lstrip_keeps_last (s : pystr) (c : N) :
  isspace c = false -> lstrip (s ++ [c]) <> [].
Proof.
  intros Hc. induction s as [|d s IH]; simpl.
  - rewrite Hc. discriminate.
  - destruct (isspace d); [exact IH | discriminate].
Qed.


Lemma len_app (a b : pystr) : len (a ++ b) = len a + len b.
Proof. unfold len. rewrite length_app. lia. Qed.

Lemma len_nonneg (s : pystr) : 0 <= len s.
Proof. unfold len. lia. Qed.

(** ** The splittability oracle *)

(** C7.  [_can_be_split] is false for a string and for a tag with no
    children, and it is true exactly when one of the direct children is a
    tag. *)
Theorem can_be_split_iff_tag_child :
  (forall text, _can_be_split (NavigableString text) = false)
  /\ (forall name attrs e, _can_be_split (Tag name attrs e []) = false)
  /\ (forall element,
        _can_be_split element = true
        <-> exists child,
              In child (contents_of element) /\ is_Tag child = true).
Proof.
  split; [reflexivity|]. split; [reflexivity|].
  intros element. unfold _can_be_split.
  destruct element as [text | name attrs e contents]; simpl.
  - split; [discriminate|]. intros [child [[] _]].
  - destruct contents as [|c contents]; simpl truthy; cbv iota.
    + simpl. split; [discriminate|]. intros [child [[] _]].
    + simpl negb. cbv iota. apply existsb_exists.
Qed.

(** ** The split-point locator *)

Section Locator.

Variable max_len : Z.

Lemma find_from_tag (children : list node) (index : nat) (start : Z)
  (i : nat) (c : node) :
  find_from max_len children index start = Some (i, c) ->
  is_Tag c = true /\ (index <= i)%nat
  /\ nth_error children (i - index) = Some c.
Proof.
  revert index start.
  induction children as [|child rest IH]; intros index start; simpl;
    [discriminate|].
  destruct (is_Tag child) eqn:Htag.
  - destruct (start + len (str_element child) >? max_len).
    + intros [= <- <-]. rewrite Nat.sub_diag. auto.
    + intros H. apply IH in H as (Hc & Hle & Hn).
      repeat split; [assumption | lia |].
      replace (i - index)%nat with (S (i - S index)) by lia. exact Hn.
  - intros H. apply IH in H as (Hc & Hle & Hn).
    repeat split; [assumption | lia |].
    replace (i - index)%nat with (S (i - S index)) by lia. exact Hn.
Qed.

(** C10.  Whatever the element and the starting length, the locator returns
    nothing or a [Tag] child of the element, at the position it reports: a
    string is never a split point. *)
Theorem find_split_point_is_tag (element : node) (start : Z) (i : nat)
  (split_point : node) :
  _find_split_point max_len element start = Some (i, split_point) ->
  is_Tag split_point = true
  /\ nth_error (contents_of element) i = Some split_point.
Proof.
  unfold _find_split_point. destruct (is_Tag element); simpl; [|discriminate].
  intros H. apply find_from_tag in H as (Hc & _ & Hn).
  rewrite Nat.sub_0_r in Hn. auto.
Qed.

Lemma tags_length_snoc (l : list node) (c : node) :
  tags_length (l ++ [c])
  = tags_length l + (if is_Tag c then len (str_element c) else 0).
Proof.
  induction l as [|d l IH]; simpl.
  - destruct (is_Tag c); lia.
  - fold (tags_length (l ++ [c])). fold (tags_length l). rewrite IH.
    destruct (is_Tag d); lia.
Qed.

Lemma firstn_snoc (l : list node) (j : nat) (c : node) :
  nth_error l j = Some c -> firstn (S j) l = firstn j l ++ [c].
Proof.
  revert j. induction l as [|d l IH]; intros [|j]; simpl; try discriminate.
  - intros [= ->]. reflexivity.
  - intros H. rewrite <- (IH j H). reflexivity.
Qed.

Lemma find_from_spec (seen rest : list node) (start : Z) :
  match find_from max_len rest (List.length seen)
                  (start + tags_length seen) with
  | Some (i, c) =>
      nth_error (seen ++ rest) i = Some c /\ is_Tag c = true
      /\ running_total (seen ++ rest) start i + len (str_element c) > max_len
      /\ forall j d, (List.length seen <= j < i)%nat ->
           nth_error (seen ++ rest) j = Some d -> is_Tag d = true ->
           running_total (seen ++ rest) start j + len (str_element d)
           <= max_len
  | None =>
      forall j d, (List.length seen <= j)%nat ->
        nth_error (seen ++ rest) j = Some d -> is_Tag d = true ->
        running_total (seen ++ rest) start j + len (str_element d) <= max_len
  end.
Proof.
  revert seen. induction rest as [|child rest IH]; intros seen.
  - simpl. intros j d Hj Hn _.
    assert (Hlt : (j < List.length (seen ++ []))%nat)
      by (apply nth_error_Some; congruence).
    rewrite app_nil_r in Hlt. lia.
  - assert (Hhere : nth_error (seen ++ child :: rest) (List.length seen)
                    = Some child).
    { rewrite nth_error_app2 by lia. rewrite Nat.sub_diag. reflexivity. }
    assert (Htot : running_total (seen ++ child :: rest) start
                     (List.length seen) = start + tags_length seen).
    { unfold running_total. rewrite firstn_app, firstn_all, Nat.sub_diag.
      simpl. rewrite app_nil_r. reflexivity. }
    specialize (IH (seen ++ [child])).
    rewrite <- app_assoc in IH. simpl app in IH.
    rewrite length_app in IH. simpl List.length in IH.
    rewrite Nat.add_1_r in IH. rewrite tags_length_snoc in IH.
    simpl find_from. destruct (is_Tag child) eqn:Htag.
    + destruct (start + tags_length seen + len (str_element child) >? max_len)
        eqn:Hover.
      * repeat split; try assumption.
        -- rewrite Htot. lia.
        -- intros j d Hj. lia.
      * rewrite Z.add_assoc in IH.
        destruct (find_from max_len rest (S (List.length seen))
                    (start + tags_length seen + len (str_element child)))
          as [[i c]|].
        -- destruct IH as (Hn & Hc & Hgt & Hbefore).
           repeat split; try assumption.
           intros j d Hj Hd Hdt.
           destruct (Nat.eq_dec j (List.length seen)) as [->|Hne].
           ++ rewrite Hhere in Hd. injection Hd as <-. rewrite Htot. lia.
           ++ apply Hbefore; [lia | assumption | assumption].
        -- intros j d Hj Hd Hdt.
           destruct (Nat.eq_dec j (List.length seen)) as [->|Hne].
           ++ rewrite Hhere in Hd. injection Hd as <-. rewrite Htot. lia.
           ++ apply IH; [lia | assumption | assumption].
    + rewrite Z.add_0_r in IH.
      destruct (find_from max_len rest (S (List.length seen))
                  (start + tags_length seen)) as [[i c]|].
      * destruct IH as (Hn & Hc & Hgt & Hbefore).
        repeat split; try assumption.
        intros j d Hj Hd Hdt.
        destruct (Nat.eq_dec j (List.length seen)) as [->|Hne].
        -- rewrite Hhere in Hd. injection Hd as <-. congruence.
        -- apply Hbefore; [lia | assumption | assumption].
      * intros j d Hj Hd Hdt.
        destruct (Nat.eq_dec j (List.length seen)) as [->|Hne].
        -- rewrite Hhere in Hd. injection Hd as <-. congruence.
        -- apply IH; [lia | assumption | assumption].
Qed.

End Locator.

(** C6, as the code has it.  The locator passes over the strings among the
    children: only a [Tag] child adds its length to the running total and
    only a [Tag] child is returned.  It returns the first [Tag] child that
    takes the running total strictly past [max_len] (one that lands on the
    limit is included), and nothing when every [Tag] child fits. *)
Theorem find_split_point_first_tag_overflow (max_len : Z) (element : node)
  (start : Z) :
  match _find_split_point max_len element start with
  | Some (i, c) =>
      nth_error (contents_of element) i = Some c /\ is_Tag c = true
      /\ running_total (contents_of element) start i + len (str_element c)
         > max_len
      /\ forall j d, (j < i)%nat ->
           nth_error (contents_of element) j = Some d -> is_Tag d = true ->
           running_total (contents_of element) start j + len (str_element d)
           <= max_len
  | None =>
      forall j d,
        nth_error (contents_of element) j = Some d -> is_Tag d = true ->
        running_total (contents_of element) start j + len (str_element d)
        <= max_len
  end.
Proof.
  unfold _find_split_point. destruct (is_Tag element) eqn:Htag; simpl negb;
    cbv iota.
  - pose proof (find_from_spec max_len [] (contents_of element) start) as H.
    simpl in H. rewrite Z.add_0_r in H.
    destruct (find_from max_len (contents_of element) 0 start) as [[i c]|].
    + destruct H as (Hn & Hc & Hgt & Hbefore). repeat split; try assumption.
      intros j d Hj. apply Hbefore. lia.
    + intros j d. apply H. lia.
  - destruct element; [|discriminate]. simpl. intros [|j] d; discriminate.
Qed.

(** C6, as the claim words it, fails: in [<div>aaaaaaaaaa<b>x</b></div>]
    with a limit of 9 the first child, a text of 10 characters, already takes
    the running total past the limit, and the locator returns nothing. *)
Lemma find_split_point_passes_over_text :
  let element :=
    Tag (u "div") [] false
        [NavigableString (u "aaaaaaaaaa");
         Tag (u "b") [] false [NavigableString (u "x")]] in
  locate_as_specified 9 element 0
    = Some (0%nat, NavigableString (u "aaaaaaaaaa"))
  /\ _find_split_point 9 element 0 = None.
Proof. split; reflexivity. Qed.

(** ** The driver *)

Section Driver.

Variable max_len : Z.

Lemma final_yield (x : pystr) (k : run) : final (yield x k) = final k.
Proof. reflexivity. Qed.

Lemma yield_from_returned (g k : run) :
  final g = Returned ->
  yield_from g k = Run (yielded g ++ yielded k) (final k).
Proof. unfold yield_from. intros ->. reflexivity. Qed.

Lemma yield_from_not_returned (g k : run) :
  final g <> Returned -> yield_from g k = g.
Proof. unfold yield_from. destruct (final g); congruence. Qed.

(** [yield from]: an error of the inner generator is the error of the outer
    one, and what follows the [yield from] is not run. *)
Lemma yield_from_raised (g k : run) (e : FragmentationError) :
  final g = Raised e -> yield_from g k = g.
Proof. intros H. apply yield_from_not_returned. congruence. Qed.

Lemma scan_turn (element : node) (acc : list node) (total : Z) :
  turn max_len element acc total.
Proof.
  destruct (skipped element) eqn:Hskip.
  { apply turn_skip; [exact Hskip|]. intros recur rest. simpl.
    unfold skipped in Hskip. rewrite Hskip. reflexivity. }
  assert (Hbody : forall recur rest r,
    (if len (str_element element) >? max_len then
       if negb (_can_be_split element) then
         raise (CannotBeSplit (len (str_element element)))
       else
         match _find_split_point max_len element 0 with
         | None => raise NoSplitPoint
         | Some (index, split_point) =>
             if _estimate_length (firstn index (contents_of element))
                <=? max_len then
               yield (str_soup (firstn index (contents_of element)))
                 (yield_from
                    (recur (str_soup (skipn (S index) (contents_of element))))
                    (scan max_len recur rest acc total))
             else raise FirstPartTooLong
         end
     else if total + len (str_element element) >? max_len then
       if truthy acc then
         yield (str_soup (_create_fragment acc []))
           (scan max_len recur rest [element] (len (str_element element)))
       else scan max_len recur rest [element] (len (str_element element))
     else
       scan max_len recur rest (acc ++ [element])
            (total + len (str_element element))) = r ->
    scan max_len recur (element :: rest) acc total = r).
  { intros recur rest r <-. simpl. unfold skipped in Hskip. rewrite Hskip.
    reflexivity. }
  destruct (len (str_element element) >? max_len) eqn:Hbig.
  - apply Z.gtb_lt in Hbig.
    destruct (_can_be_split element) eqn:Hcan; simpl negb in Hbody.
    + destruct (_find_split_point max_len element 0) as [[i sp]|] eqn:Hfind.
      * destruct (_estimate_length (firstn i (contents_of element))
                  <=? max_len) eqn:Hfirst.
        -- apply Z.leb_le in Hfirst.
           apply (turn_split _ _ _ _ i sp); try assumption; try lia.
           intros recur rest. apply Hbody. reflexivity.
        -- apply Z.leb_gt in Hfirst.
           apply (turn_first_part_too_long _ _ _ _ i sp);
             try assumption; try lia.
           intros recur rest. apply Hbody. reflexivity.
      * apply turn_no_split_point; try assumption; try lia.
        intros recur rest. apply Hbody. reflexivity.
    + apply turn_cannot_split; try assumption; try lia.
      intros recur rest. apply Hbody. reflexivity.
  - assert (Hsmall : len (str_element element) <= max_len).
    { destruct (Z.gtb_spec (len (str_element element)) max_len);
        [discriminate | lia]. }
    destruct (total + len (str_element element) >? max_len) eqn:Hover.
    + apply Z.gtb_lt in Hover.
      apply turn_flush; try assumption; try lia.
      intros recur rest. apply Hbody. reflexivity.
    + assert (total + len (str_element element) <= max_len).
      { destruct (Z.gtb_spec (total + len (str_element element)) max_len);
          [discriminate | lia]. }
      apply turn_append; try assumption.
      intros recur rest. apply Hbody. reflexivity.
Qed.

(** The run does not depend on a recursive call that is deep enough. *)
Lemma scan_recur_ext (r1 r2 : pystr -> run) (children : list node) :
  (forall s, final (r1 s) <> RecursionLimit -> r2 s = r1 s) ->
  forall acc total,
  final (scan max_len r1 children acc total) <> RecursionLimit ->
  scan max_len r2 children acc total = scan max_len r1 children acc total.
Proof.
  intros Hr. induction children as [|element rest IH]; intros acc total;
    [reflexivity|].
  destruct (scan_turn element acc total)
    as [_ E | _ _ _ E | _ _ _ _ E | i sp _ _ _ _ _ E | i sp _ _ _ _ _ E
        | _ _ _ E | _ _ _ E];
    rewrite (E r1), (E r2); try reflexivity; try apply IH.
  - set (rem := str_soup (skipn (S i) (contents_of element))).
    rewrite final_yield. intros Hfin.
    destruct (final (r1 rem)) eqn:Hg.
    + rewrite (yield_from_returned (r1 rem)) in Hfin by assumption.
      simpl in Hfin. rewrite Hr by congruence.
      rewrite !(yield_from_returned (r1 rem)) by assumption.
      rewrite IH by assumption. reflexivity.
    + rewrite Hr by congruence. rewrite !(yield_from_raised (r1 rem) _ e)
        by assumption. reflexivity.
    + rewrite yield_from_not_returned in Hfin by congruence. congruence.
  - destruct (truthy acc); [rewrite !final_yield|]; intros Hfin;
      rewrite IH by assumption; reflexivity.
Qed.

Lemma split_message_unfold (parse : pystr -> soup) (depth : nat)
  (source : pystr) :
  split_message max_len parse (S depth) source
  = if negb (truthy (strip source)) then ret
    else scan max_len (split_message max_len parse depth) (parse source) [] 0.
Proof. reflexivity. Qed.

(** A run that stays within the recursion limit is the same with more room. *)
Lemma split_message_depth_mono (parse : pystr -> soup) (d : nat) :
  forall source d',
  final (split_message max_len parse d source) <> RecursionLimit ->
  (d <= d')%nat ->
  split_message max_len parse d' source = split_message max_len parse d source.
Proof.
  induction d as [|d IH]; intros source d' Hfin Hle.
  - simpl in Hfin. congruence.
  - destruct d' as [|d']; [lia|]. simpl in *.
    destruct (negb (truthy (strip source))); [reflexivity|].
    apply scan_recur_ext; [|assumption].
    intros s Hs. apply IH; [assumption | lia].
Qed.

(** C8.  The empty string yields no fragment, and so does a source made of
    whitespace only: the generator returns at once, before it parses. *)
Theorem split_message_blank_source (parse : pystr -> soup) (depth : nat) :
  split_message max_len parse (S depth) [] = ret
  /\ forall source, forallb isspace source = true ->
       split_message max_len parse (S depth) source = ret.
Proof.
  split; [reflexivity|]. intros source Hblank. simpl.
  rewrite (strip_all_space source Hblank). reflexivity.
Qed.

Lemma final_scan_nil (recur : pystr -> run) (acc : list node) (total : Z) :
  final (scan max_len recur [] acc total) = Returned.
Proof.
  simpl. destruct (truthy acc); [|reflexivity].
  match goal with |- context [if ?c then _ else _] => destruct c end;
    reflexivity.
Qed.



(** The oversized branch, when the locator finds a split point and the part
    before it fits: that part is yielded, then the fragments of the
    recursive call on what follows the split point, then the loop goes on. *)
Lemma scan_split (recur : pystr -> run) (element : node)
  (rest acc : list node) (total : Z) (i : nat) (split_point : node) :
  len (str_element element) > max_len ->
  _find_split_point max_len element 0 = Some (i, split_point) ->
  _estimate_length (firstn i (contents_of element)) <= max_len ->
  scan max_len recur (element :: rest) acc total
  = yield (str_soup (firstn i (contents_of element)))
      (yield_from (recur (str_soup (skipn (S i) (contents_of element))))
         (scan max_len recur rest acc total)).
Proof.
  intros Hl Hfind Hfirst.
  destruct (scan_turn element acc total)
    as [Hs E | _ _ Hc E | _ _ _ Hf E | i' sp' _ _ _ Hf Hp E
        | i' sp' _ _ _ Hf _ E | _ Hl' _ E | _ Hl' _ E]; try lia.
  - unfold skipped in Hs. unfold _find_split_point in Hfind.
    destruct element; simpl in *; discriminate.
  - unfold _can_be_split in Hc. unfold _find_split_point in Hfind.
    destruct element as [|name attrs em contents]; [discriminate|].
    simpl in *. destruct contents as [|c contents]; [discriminate|].
    simpl in Hc.
    apply find_from_tag in Hfind as (Htag & _ & Hn).
    apply nth_error_In in Hn.
    assert (existsb is_Tag (c :: contents) = true)
      by (apply existsb_exists; eauto).
    simpl in H. congruence.
  - congruence.
  - rewrite Hfind in Hf. injection Hf as <- <-. lia.
  - rewrite Hfind in Hf. injection Hf as <- <-. apply E.
Qed.

(** The recursive call's error is the outer call's error, with the
    fragments the recursive call had yielded. *)
Lemma recursive_error_propagates (recur : pystr -> run) (element : node)
  (rest acc : list node) (total : Z) (i : nat) (split_point : node)
  (e : FragmentationError) :
  len (str_element element) > max_len ->
  _find_split_point max_len element 0 = Some (i, split_point) ->
  _estimate_length (firstn i (contents_of element)) <= max_len ->
  final (recur (str_soup (skipn (S i) (contents_of element)))) = Raised e ->
  scan max_len recur (element :: rest) acc total
  = yield (str_soup (firstn i (contents_of element)))
      (recur (str_soup (skipn (S i) (contents_of element)))).
Proof.
  intros Hl Hfind Hfirst Hg.
  rewrite (scan_split recur element rest acc total i split_point)
    by assumption.
  rewrite (yield_from_raised _ _ e) by assumption. reflexivity.
Qed.

End Driver.

(** ** Oversized nodes that cannot be split *)









(** ** The size bound, and where it holds *)

Section SizeBound.

Variable max_len : Z.
Variable parse : pystr -> soup.

(** The strings at the top level of the trees the parser builds have no
    character that the serializer writes as an entity. *)
Hypothesis top_level_text_is_plain :
  forall source text,
    In (NavigableString text) (parse source) -> substitute_xml text = text.

Lemma scan_nil (recur : pystr -> run) (acc : list node) (total : Z) :
  scan max_len recur [] acc total
  = if truthy acc then
      if truthy (strip (str_soup (_create_fragment acc []))) then
        yield (str_soup (_create_fragment acc [])) ret
      else ret
    else ret.
Proof. reflexivity. Qed.

Lemma str_soup_fragment_app (a b : list node) :
  str_soup (_create_fragment (a ++ b) [])
  = str_soup (_create_fragment a []) ++ str_soup (_create_fragment b []).
Proof. unfold str_soup. simpl. rewrite map_app, flat_map_app. reflexivity. Qed.

(** For a tag, and for a string with nothing to escape, the fragment made of
    the element alone is what the loop measured. *)
Lemma str_soup_fragment_one (element : node) :
  (forall text, element = NavigableString text -> substitute_xml text = text) ->
  str_soup (_create_fragment [element] []) = str_element element.
Proof.
  intros Hplain. destruct element as [text | name attrs e contents].
  - unfold str_soup. simpl. rewrite app_nil_r. apply Hplain. reflexivity.
  - unfold str_soup. simpl flat_map. rewrite app_nil_r. reflexivity.
Qed.

Lemma scan_fits (recur : pystr -> run) :
  (forall s, Forall (fits max_len) (yielded (recur s))) ->
  forall children acc total,
    (forall text, In (NavigableString text) children ->
                  substitute_xml text = text) ->
    len (str_soup (_create_fragment acc [])) = total ->
    acc = [] \/ total <= max_len ->
    Forall (fits max_len) (yielded (scan max_len recur children acc total)).
Proof.
  intros Hrecur. induction children as [|element rest IH];
    intros acc total Hplain Hlen Hacc.
  - rewrite scan_nil. destruct acc as [|a acc]; [constructor|].
    change (truthy (a :: acc)) with true. cbv iota.
    match goal with |- context [if ?c then _ else _] => destruct c end;
      [|constructor].
    constructor; [|constructor]. unfold fits.
    destruct Hacc as [Hacc|Hacc]; [discriminate | lia].
  - assert (Hrest : forall text, In (NavigableString text) rest ->
                                 substitute_xml text = text)
      by (intros text Hin; apply Hplain; right; exact Hin).
    assert (Hone : str_soup (_create_fragment [element] [])
                   = str_element element).
    { apply str_soup_fragment_one. intros text ->. apply Hplain. left.
      reflexivity. }
    destruct (scan_turn max_len element acc total)
      as [_ E | _ _ _ E | _ _ _ _ E | i sp _ _ _ _ _ E
          | i sp _ _ _ _ Hfirst E | _ Hsmall _ E | _ _ Hsum E];
      rewrite E.
    + apply IH; assumption.
    + constructor.
    + constructor.
    + constructor.
    + constructor; [exact Hfirst|].
      unfold yield_from.
      destruct (final (recur (str_soup (skipn (S i) (contents_of element)))));
        try apply Hrecur.
      simpl. apply Forall_app. split; [apply Hrecur|]. apply IH; assumption.
    + assert (Hnext : Forall (fits max_len)
                (yielded (scan max_len recur rest [element]
                            (len (str_element element))))).
      { apply IH; [assumption | rewrite Hone; reflexivity | right; lia]. }
      destruct acc as [|a acc]; [exact Hnext|].
      change (truthy (a :: acc)) with true. cbv iota.
      constructor; [|exact Hnext]. unfold fits.
      destruct Hacc as [Hacc|Hacc]; [discriminate | lia].
    + apply IH; [assumption | | right; exact Hsum].
      rewrite str_soup_fragment_app, len_app, Hone, Hlen. reflexivity.
Qed.

(** With such a parser every fragment is within [max_len]: the bound fails
    only through the entities of a top-level string. *)
Lemma fragments_fit_when_no_text_is_escaped (depth : nat) (source : pystr) :
  Forall (fits max_len) (yielded (split_message max_len parse depth source)).
Proof.
  revert source. induction depth as [|depth IH]; intros source;
    [constructor|].
  rewrite split_message_unfold.
  destruct (negb (truthy (strip source))); [constructor|].
  apply scan_fits; [exact IH | apply top_level_text_is_plain | reflexivity
                    | left; reflexivity].
Qed.

End SizeBound.

(** ** Concrete runs *)

(** A run computed with room for [d] nested calls, carried over to any
    larger room. *)
Ltac run_with_depth d :=
  unfold split_message_html;
  rewrite (split_message_depth_mono _ _ d)
    by (try lia; vm_compute; discriminate);
  vm_compute.





Lemma split_message_blank_source_witness :
  forallb isspace (u "   ") = true
  /\ split_message 4096 HtmlParser.parse 1 (u "   ") = ret.
Proof.
  split; [reflexivity|].
  apply (proj2 (split_message_blank_source 4096 HtmlParser.parse 0)).
  reflexivity.
Defined.

Lemma find_split_point_is_tag_witness :
  let last := Tag (u "u") [] false [NavigableString (u "cc")] in
  let element :=
    Tag (u "div") [] false
        [Tag (u "b") [] false [NavigableString (u "aa")];
         NavigableString (u "bb"); last] in
  _find_split_point 15 element 0 = Some (2%nat, last)
  /\ is_Tag last = true
  /\ nth_error (contents_of element) 2 = Some last.
Proof.
  split; [reflexivity|].
  apply (find_split_point_is_tag 15 _ 0). reflexivity.
Defined.

(** C9.  A run can succeed and yield the empty string.  With a limit of 10,
    [<div><b>aaaaaaaaaaaa</b></div>] does: the split point is the first
    child of the oversized [div].  In general, when the locator returns the
    first child of an oversized node and the limit is not negative, the
    node's first fragment is the empty string. *)
Theorem empty_first_part_is_yielded :
  (exists source max_len, forall depth,
      let r := split_message_html source max_len (S (S depth)) in
      final r = Returned /\ In [] (yielded r))
  /\ (forall max_len recur element rest acc total split_point,
        0 <= max_len ->
        len (str_element element) > max_len ->
        _find_split_point max_len element 0 = Some (0%nat, split_point) ->
        scan max_len recur (element :: rest) acc total
        = yield []
            (yield_from (recur (str_soup (skipn 1 (contents_of element))))
               (scan max_len recur rest acc total))).
Proof.
  split.
  - exists (u "<div><b>aaaaaaaaaaaa</b></div>"), 10. intros depth.
    cbv zeta. run_with_depth 2%nat. split; [reflexivity | left; reflexivity].
  - intros max_len recur element rest acc total sp Hmax Hl Hfind.
    apply (scan_split max_len recur element rest acc total 0 sp);
      [assumption | assumption | exact Hmax].
Qed.

Lemma empty_first_part_is_yielded_witness :
  let element :=
    Tag (u "div") [] false
        [Tag (u "b") [] false [NavigableString (u "aaaaaaaaaaaa")]] in
  let recur := split_message 10 HtmlParser.parse 1 in
  scan 10 recur [element] [] 0 = Run [[]] Returned.
Proof.
  cbv zeta.
  rewrite (proj2 empty_first_part_is_yielded 10 _ _ [] [] 0
             (Tag (u "b") [] false [NavigableString (u "aaaaaaaaaaaa")]));
    [reflexivity | lia | reflexivity | reflexivity].
Defined.

(** ** Runs on which the code departs from the specification *)

(** C1.  The size bound fails where a top-level string has a character that
    is written as an entity: the loop measures [a & b] as 5 characters and
    the fragment that is yielded, [a &amp; b], has 9. *)
Theorem escaped_text_exceeds_max_len :
  forall depth,
    let r := split_message_html (u "a & b") 5 (S depth) in
    r = Run [u "a &amp; b"] Returned
    /\ ~ Forall (fun fragment => len fragment <= 5) (yielded r).
Proof.
  intros depth. cbv zeta. run_with_depth 1%nat.
  split; [reflexivity|]. intros H. inversion H as [|? ? Hlen _]; subst.
  vm_compute in Hlen. apply Hlen. reflexivity.
Qed.

(** C2.  The split point is lost: with a limit of 20 the source
    [<div><b>aa</b><i>bb</i><u>cc</u></div>] yields [<b>aa</b><i>bb</i>]
    alone, and the text [cc] is in no fragment. *)
Theorem split_point_is_dropped :
  forall depth,
    let source := u "<div><b>aa</b><i>bb</i><u>cc</u></div>" in
    let r := split_message_html source 20 (S (S depth)) in
    r = Run [u "<b>aa</b><i>bb</i>"] Returned
    /\ content (HtmlParser.parse source) = [u "aa"; u "bb"; u "cc"]
    /\ flat_map (fun fragment => content (HtmlParser.parse fragment))
                (yielded r)
       = [u "aa"; u "bb"].
Proof.
  intros depth. cbv zeta. run_with_depth 2%nat.
  repeat split; reflexivity.
Qed.

(** C3.  The siblings gathered before an oversized node are yielded after
    its parts: with a limit of 20 the source
    [<p>a</p><div><b>bb</b><i>cc</i><u>dd</u></div>] yields
    [<b>bb</b><i>cc</i>] first and [<p>a</p>] second. *)
Theorem accumulated_siblings_are_yielded_late :
  forall depth,
    let source := u "<p>a</p><div><b>bb</b><i>cc</i><u>dd</u></div>" in
    let r := split_message_html source 20 (S (S depth)) in
    r = Run [u "<b>bb</b><i>cc</i>"; u "<p>a</p>"] Returned
    /\ content (HtmlParser.parse source) = [u "a"; u "bb"; u "cc"; u "dd"]
    /\ subsequence
         (flat_map (fun fragment => content (HtmlParser.parse fragment))
                   (yielded r))
         (content (HtmlParser.parse source))
       = false.
Proof.
  intros depth. cbv zeta. run_with_depth 2%nat.
  repeat split; reflexivity.
Qed.

(** * Further properties of the code *)

(** ** Blank strings and blank fragments *)

Lemma lstrip_head (s : pystr) :
  (lstrip s = [] /\ forallb isspace s = true)
  \/ exists c s', lstrip s = c :: s' /\ isspace c = false
                  /\ forallb isspace s = false.
Proof.
  induction s as [|c s IH]; simpl; [left; auto|].
  destruct (isspace c) eqn:Hc; simpl.
  - exact IH.
  - right. exists c, s. auto.
Qed.

(** A string is true once stripped exactly when one of its characters is
    no space. *)
Lemma truthy_strip (s : pystr) :
  truthy (strip s) = negb (forallb isspace s).
Proof.
  destruct (lstrip_head s) as [[_ Hall] | (c & s' & Hl & Hc & Hall)].
  - rewrite (strip_all_space s Hall), Hall. reflexivity.
  - rewrite Hall. unfold strip. rewrite Hl. simpl rev.
    pose proof (lstrip_keeps_last (rev s') c Hc) as Hne.
    destruct (lstrip (rev s' ++ [c])) as [|d t] eqn:Ht; [congruence|].
    simpl rev. destruct (rev t ++ [d]) eqn:E; [|reflexivity].
    destruct (rev t); discriminate.
Qed.

Lemma blank_substitute_xml (text : pystr) :
  forallb isspace (substitute_xml text) = forallb isspace text.
Proof.
  induction text as [|c text IH]; [reflexivity|].
  change (substitute_xml (c :: text))
    with ((if (c =? chr_amp)%N then u "&amp;"
           else if (c =? chr_lt)%N then u "&lt;"
           else if (c =? chr_gt)%N then u "&gt;"
           else [c]) ++ substitute_xml text).
  rewrite forallb_app, IH. simpl forallb at 2.
  destruct (N.eqb_spec c chr_amp) as [->|_]; [reflexivity|].
  destruct (N.eqb_spec c chr_lt) as [->|_]; [reflexivity|].
  destruct (N.eqb_spec c chr_gt) as [->|_]; [reflexivity|].
  simpl. rewrite andb_true_r. reflexivity.
Qed.

(** The markup of a node the loop keeps is not blank. *)
Lemma kept_node_not_blank (element : node) :
  skipped element = false ->
  forallb isspace (str_soup (_create_fragment [element] [])) = false.
Proof.
  intros Hs. destruct element as [text | name attrs e contents].
  - unfold skipped in Hs. simpl in Hs. rewrite truthy_strip in Hs.
    rewrite negb_involutive in Hs.
    unfold str_soup. simpl. rewrite app_nil_r, blank_substitute_xml.
    exact Hs.
  - unfold str_soup. simpl flat_map. rewrite app_nil_r.
    simpl decode. destruct (e && negb (truthy contents)); reflexivity.
Qed.

Lemma kept_group_not_blank (group : list node) :
  group <> [] -> Forall (fun n => skipped n = false) group ->
  truthy (strip (str_soup (_create_fragment group []))) = true.
Proof.
  intros Hne Hall. rewrite truthy_strip.
  destruct group as [|element group]; [congruence|].
  change (element :: group) with ([element] ++ group).
  rewrite str_soup_fragment_app, forallb_app.
  rewrite kept_node_not_blank by (inversion Hall; assumption).
  reflexivity.
Qed.

Lemma measured_app (a b : list node) :
  measured (a ++ b) = measured a + measured b.
Proof.
  induction a as [|n a IH]; simpl; [reflexivity|].
  fold (measured (a ++ b)). fold (measured a). rewrite IH. lia.
Qed.

Lemma measured_nonneg (group : list node) : 0 <= measured group.
Proof.
  induction group as [|n group IH]; simpl; [lia|].
  fold (measured group). pose proof (len_nonneg (str_element n)). lia.
Qed.

(** ** Top-level whitespace *)

Section Accumulation.

Variable max_len : Z.

(** X1.  Whitespace-only strings at the top level take no part in a run: the
    loop over the parsed children is the loop over the children it keeps. *)
Theorem scan_ignores_blank_strings (recur : pystr -> run)
  (children : list node) (acc : list node) (total : Z) :
  scan max_len recur children acc total
  = scan max_len recur (kept children) acc total.
Proof.
  revert acc total. induction children as [|element rest IH];
    intros acc total; [reflexivity|].
  unfold kept. simpl filter. fold (kept rest).
  destruct (scan_turn max_len element acc total)
    as [Hs E | Hs _ _ E | Hs _ _ _ E | i sp Hs _ _ _ _ E
        | i sp Hs _ _ _ _ E | Hs _ _ E | Hs _ _ E];
    rewrite Hs; simpl negb; cbv iota.
  - rewrite E. apply IH.
  - rewrite !E. reflexivity.
  - rewrite !E. reflexivity.
  - rewrite !E. reflexivity.
  - rewrite !E. rewrite IH. reflexivity.
  - rewrite !E. rewrite IH. reflexivity.
  - rewrite !E. apply IH.
Qed.

(** ** Sources with no oversized node *)

(** With no oversized node the loop never reaches the recursive call. *)
Lemma scan_passes_no_recursion (r1 r2 : pystr -> run) (children : list node) :
  Forall (passes max_len) children ->
  forall acc total,
    scan max_len r1 children acc total = scan max_len r2 children acc total.
Proof.
  induction 1 as [|element rest Hn _ IH]; intros acc total; [reflexivity|].
  destruct (scan_turn max_len element acc total)
    as [_ E | Hs Hl _ E | Hs Hl _ _ E | i sp Hs Hl _ _ _ E
        | i sp Hs Hl _ _ _ E | _ _ _ E | _ _ _ E];
    try (exfalso; destruct Hn as [Hn|Hn]; [congruence | lia]);
    rewrite !E; rewrite ?(IH acc total); try reflexivity.
  - rewrite (IH [element]). reflexivity.
  - apply IH.
Qed.

Lemma concat_yielded_yield (x : pystr) (k : run) :
  List.concat (yielded (yield x k)) = x ++ List.concat (yielded k).
Proof. reflexivity. Qed.

Lemma scan_passes (recur : pystr -> run) (children : list node) :
  Forall (passes max_len) children ->
  forall acc total,
    Forall (fun n => skipped n = false) acc ->
    let r := scan max_len recur children acc total in
    final r = Returned
    /\ List.concat (yielded r)
       = str_soup (_create_fragment (acc ++ kept children) [])
    /\ Forall (fun fragment => truthy (strip fragment) = true) (yielded r).
Proof.
  induction 1 as [|element rest Hn _ IH]; intros acc total Hacc; cbv zeta.
  - rewrite scan_nil. simpl kept. rewrite app_nil_r.
    destruct acc as [|a acc]; [repeat split; constructor|].
    change (truthy (a :: acc)) with true. cbv iota.
    rewrite kept_group_not_blank by (congruence || assumption).
    repeat split.
    + rewrite concat_yielded_yield. apply app_nil_r.
    + constructor; [|constructor].
      apply kept_group_not_blank; [congruence | assumption].
  - destruct (scan_turn max_len element acc total)
      as [Hs E | Hs Hl _ E | Hs Hl _ _ E | i sp Hs Hl _ _ _ E
          | i sp Hs Hl _ _ _ E | Hs _ _ E | Hs _ _ E];
      try (exfalso; destruct Hn as [Hn|Hn]; [congruence | lia]);
      rewrite E; unfold kept; simpl filter; fold (kept rest); rewrite Hs;
      simpl negb; cbv iota.
    + apply IH. exact Hacc.
    + assert (Hone : Forall (fun n => skipped n = false) [element])
        by (constructor; [exact Hs | constructor]).
      destruct (IH [element] (len (str_element element)) Hone)
        as (Hfin & Hcat & Hnb).
      destruct acc as [|a acc]; [repeat split; assumption|].
      change (truthy (a :: acc)) with true. cbv iota.
      repeat split.
      * exact Hfin.
      * rewrite concat_yielded_yield, Hcat. symmetry.
        apply (str_soup_fragment_app (a :: acc) (element :: kept rest)).
      * constructor; [|exact Hnb].
        apply kept_group_not_blank; [congruence | assumption].
    + assert (Hmore : Forall (fun n => skipped n = false) (acc ++ [element])).
      { apply Forall_app. split; [exact Hacc|].
        constructor; [exact Hs | constructor]. }
      destruct (IH (acc ++ [element]) (total + len (str_element element))
                   Hmore) as (Hfin & Hcat & Hnb).
      repeat split; try assumption.
      rewrite Hcat, <- app_assoc. reflexivity.
Qed.

End Accumulation.

(** X2.  When no top-level node is oversized, a run on a source that is not
    blank returns normally, loses nothing and keeps the order: the
    fragments, one after the other, are the markup of the nodes the loop
    keeps, and no fragment is blank. *)
Theorem no_oversized_node_no_loss (max_len : Z) (parse : pystr -> soup)
  (depth : nat) (source : pystr) :
  truthy (strip source) = true ->
  Forall (passes max_len) (parse source) ->
  let r := split_message max_len parse (S depth) source in
  final r = Returned
  /\ List.concat (yielded r)
     = str_soup (_create_fragment (kept (parse source)) [])
  /\ Forall (fun fragment => truthy (strip fragment) = true) (yielded r).
Proof.
  intros Hsrc Hpass. cbv zeta. rewrite split_message_unfold, Hsrc.
  simpl negb. cbv iota.
  apply (scan_passes max_len _ (parse source) Hpass [] 0). constructor.
Qed.

Lemma no_oversized_node_no_loss_witness :
  let source := u "<p>a</p> <p>b</p> x & y <i>c</i>" in
  let r := split_message 10 HtmlParser.parse 1 source in
  truthy (strip source) = true
  /\ Forall (passes 10) (HtmlParser.parse source)
  /\ final r = Returned
  /\ List.concat (yielded r)
     = str_soup (_create_fragment (kept (HtmlParser.parse source)) [])
  /\ Forall (fun fragment => truthy (strip fragment) = true) (yielded r).
Proof.
  cbv zeta.
  assert (Hsrc : truthy (strip (u "<p>a</p> <p>b</p> x & y <i>c</i>"))
                 = true) by reflexivity.
  assert (Hpass : Forall (passes 10)
            (HtmlParser.parse (u "<p>a</p> <p>b</p> x & y <i>c</i>"))).
  { let l := eval vm_compute in
      (HtmlParser.parse (u "<p>a</p> <p>b</p> x & y <i>c</i>")) in
    change (Forall (passes 10) l).
    repeat (constructor;
            [first [left; reflexivity | right; vm_compute; discriminate]|]).
    constructor. }
  split; [exact Hsrc|]. split; [exact Hpass|].
  exact (no_oversized_node_no_loss 10 HtmlParser.parse 0 _ Hsrc Hpass).
Defined.

(** X3.  The generator calls itself only for an oversized node: with none at the
    top level, one level of the recursion is all a run uses. *)
Theorem no_oversized_node_no_recursion (max_len : Z) (parse : pystr -> soup)
  (depth : nat) (source : pystr) :
  Forall (passes max_len) (parse source) ->
  split_message max_len parse (S depth) source
  = split_message max_len parse 1 source.
Proof.
  intros Hpass. rewrite !split_message_unfold.
  destruct (negb (truthy (strip source))); [reflexivity|].
  apply scan_passes_no_recursion. exact Hpass.
Qed.

Lemma no_oversized_node_no_recursion_witness :
  let source := u "<p>a</p> <p>b</p> x & y <i>c</i>" in
  Forall (passes 10) (HtmlParser.parse source)
  /\ split_message 10 HtmlParser.parse 7 source
     = split_message 10 HtmlParser.parse 1 source.
Proof.
  cbv zeta.
  assert (Hpass : Forall (passes 10)
            (HtmlParser.parse (u "<p>a</p> <p>b</p> x & y <i>c</i>"))).
  { let l := eval vm_compute in
      (HtmlParser.parse (u "<p>a</p> <p>b</p> x & y <i>c</i>")) in
    change (Forall (passes 10) l).
    repeat (constructor;
            [first [left; reflexivity | right; vm_compute; discriminate]|]).
    constructor. }
  split; [exact Hpass|].
  exact (no_oversized_node_no_recursion 10 HtmlParser.parse 6 _ Hpass).
Defined.

(** ** A message that fits *)

Lemma scan_all_fit (max_len : Z) (recur : pystr -> run)
  (children : list node) :
  forall acc total,
    Forall (fun n => skipped n = false) acc ->
    total = measured acc ->
    measured (acc ++ kept children) <= max_len ->
    acc ++ kept children <> [] ->
    scan max_len recur children acc total
    = Run [str_soup (_create_fragment (acc ++ kept children) [])] Returned.
Proof.
  induction children as [|element rest IH]; intros acc total Hacc Htot Hfit Hne.
  - simpl kept in *. rewrite app_nil_r in *. rewrite scan_nil.
    destruct acc as [|a acc]; [congruence|].
    change (truthy (a :: acc)) with true. cbv iota.
    rewrite kept_group_not_blank by (congruence || assumption).
    reflexivity.
  - unfold kept in Hfit, Hne |- *. simpl filter in Hfit, Hne |- *.
    fold (kept rest) in Hfit, Hne |- *.
    destruct (scan_turn max_len element acc total)
      as [Hs E | Hs Hl _ E | Hs Hl _ _ E | i sp Hs Hl _ _ _ E
          | i sp Hs Hl _ _ _ E | Hs _ Hover E | Hs _ _ E];
      rewrite Hs in Hfit, Hne |- *; simpl negb in Hfit, Hne |- *;
      cbv iota in Hfit, Hne |- *;
      try (rewrite measured_app in Hfit; simpl measured in Hfit;
           fold (measured (kept rest)) in Hfit;
           pose proof (measured_nonneg acc);
           pose proof (measured_nonneg (kept rest)); exfalso; lia).
    + rewrite E. apply IH; assumption.
    + rewrite E.
      replace (acc ++ element :: kept rest)
        with ((acc ++ [element]) ++ kept rest) in *
        by (rewrite <- app_assoc; reflexivity).
      apply IH; try assumption.
      * apply Forall_app. split; [exact Hacc|].
        constructor; [exact Hs | constructor].
      * rewrite measured_app. simpl measured. lia.
Qed.

(** X4.  A message whose kept top-level nodes together count for no more than
    [max_len] comes out as one fragment, holding all of them in order. *)
Theorem fitting_message_is_one_fragment (max_len : Z)
  (parse : pystr -> soup) (depth : nat) (source : pystr) :
  truthy (strip source) = true ->
  kept (parse source) <> [] ->
  measured (kept (parse source)) <= max_len ->
  split_message max_len parse (S depth) source
  = Run [str_soup (_create_fragment (kept (parse source)) [])] Returned.
Proof.
  intros Hsrc Hne Hfit. rewrite split_message_unfold, Hsrc.
  simpl negb. cbv iota.
  apply (scan_all_fit max_len _ (parse source) [] 0);
    [constructor | reflexivity | exact Hfit | exact Hne].
Qed.

Lemma fitting_message_is_one_fragment_witness :
  let source := u "  <p>  Some    spaced    content  </p>  " in
  truthy (strip source) = true
  /\ kept (HtmlParser.parse source) <> []
  /\ measured (kept (HtmlParser.parse source)) <= 100
  /\ split_message 100 HtmlParser.parse 1 source
     = Run [u "<p>  Some    spaced    content  </p>"] Returned.
Proof.
  cbv zeta.
  assert (Hsrc : truthy (strip (u "  <p>  Some    spaced    content  </p>  "))
                 = true) by reflexivity.
  assert (Hne : kept (HtmlParser.parse
                        (u "  <p>  Some    spaced    content  </p>  ")) <> [])
    by (vm_compute; discriminate).
  assert (Hfit : measured (kept (HtmlParser.parse
                   (u "  <p>  Some    spaced    content  </p>  "))) <= 100)
    by (vm_compute; discriminate).
  split; [exact Hsrc|]. split; [exact Hne|]. split; [exact Hfit|].
  rewrite (fitting_message_is_one_fragment 100 HtmlParser.parse 0 _
             Hsrc Hne Hfit).
  reflexivity.
Defined.

(** ** What the loop's accounting guarantees *)

Section Budget.

Variable max_len : Z.

(** What holds of every part cut from an oversized node and of every group
    of top-level nodes within the count holds of every fragment. *)
Lemma scan_yields (P : pystr -> Prop) (recur : pystr -> run) :
  (forall fragment, len fragment <= max_len -> P fragment) ->
  (forall group, group <> [] -> measured group <= max_len ->
                 P (str_soup (_create_fragment group []))) ->
  (forall s, Forall P (yielded (recur s))) ->
  forall children acc total,
    total = measured acc ->
    acc = [] \/ total <= max_len ->
    Forall P (yielded (scan max_len recur children acc total)).
Proof.
  intros Hpart Hgroup Hrecur. induction children as [|element rest IH];
    intros acc total Htot Hacc.
  - rewrite scan_nil. destruct acc as [|a acc]; [constructor|].
    change (truthy (a :: acc)) with true. cbv iota.
    match goal with |- context [if ?c then _ else _] => destruct c end;
      [|constructor].
    constructor; [|constructor]. apply Hgroup; [discriminate|].
    destruct Hacc as [Hacc|Hacc]; [discriminate | lia].
  - destruct (scan_turn max_len element acc total)
      as [_ E | _ _ _ E | _ _ _ _ E | i sp _ _ _ _ _ E
          | i sp _ _ _ _ Hfirst E | _ Hsmall _ E | _ _ Hsum E];
      rewrite E.
    + apply IH; assumption.
    + constructor.
    + constructor.
    + constructor.
    + constructor; [apply Hpart; exact Hfirst|].
      unfold yield_from.
      destruct (final (recur (str_soup (skipn (S i) (contents_of element)))));
        try apply Hrecur.
      simpl. apply Forall_app. split; [apply Hrecur|]. apply IH; assumption.
    + assert (Hnext : Forall P
                (yielded (scan max_len recur rest [element]
                            (len (str_element element))))).
      { apply IH; [simpl; lia | right; lia]. }
      destruct acc as [|a acc]; [exact Hnext|].
      change (truthy (a :: acc)) with true. cbv iota.
      constructor; [|exact Hnext]. apply Hgroup; [discriminate|].
      destruct Hacc as [Hacc|Hacc]; [discriminate | lia].
    + apply IH; [|right; exact Hsum].
      rewrite measured_app. simpl. lia.
Qed.

Lemma split_message_yields (P : pystr -> Prop) (parse : pystr -> soup) :
  (forall fragment, len fragment <= max_len -> P fragment) ->
  (forall group, group <> [] -> measured group <= max_len ->
                 P (str_soup (_create_fragment group []))) ->
  forall depth source,
    Forall P (yielded (split_message max_len parse depth source)).
Proof.
  intros Hpart Hgroup. induction depth as [|depth IH]; intros source;
    [constructor|].
  rewrite split_message_unfold.
  destruct (negb (truthy (strip source))); [constructor|].
  apply scan_yields; auto.
Qed.

(** X5.  Whatever the parser and the source, every fragment is within the
    loop's accounting: it is no longer than [max_len] (a part cut from an
    oversized node), or it is a group of top-level nodes whose counted
    lengths [len(str(node))] add up to at most [max_len]. *)
Theorem fragments_within_budget (parse : pystr -> soup) (depth : nat)
  (source : pystr) :
  Forall (within_budget max_len)
         (yielded (split_message max_len parse depth source)).
Proof.
  apply split_message_yields.
  - intros fragment Hfit. left. exact Hfit.
  - intros group Hne Hgroup. right. exists group. auto.
Qed.

Lemma scan_negative_max_len (recur : pystr -> run) (children : list node) :
  max_len < 0 -> yielded (scan max_len recur children [] 0) = [].
Proof.
  intros Hneg. induction children as [|element rest IH]; [reflexivity|].
  pose proof (len_nonneg (str_element element)) as Hlen.
  destruct (scan_turn max_len element [] 0)
    as [_ E | _ _ _ E | _ _ _ _ E | i sp _ _ _ _ _ E
        | i sp _ _ _ _ Hfirst E | _ Hsmall _ E | _ Hsmall _ E];
    try lia; rewrite E; try reflexivity.
  - exact IH.
  - unfold _estimate_length in Hfirst.
    pose proof (len_nonneg (str_soup (firstn i (contents_of element)))).
    lia.
Qed.

(** X6.  With a negative [max_len] nothing is ever yielded: every node the loop
    keeps is oversized, and an empty first part is itself too long. *)
Theorem negative_max_len_yields_nothing (parse : pystr -> soup)
  (depth : nat) (source : pystr) :
  max_len < 0 ->
  yielded (split_message max_len parse depth source) = [].
Proof.
  intros Hneg. destruct depth as [|depth]; [reflexivity|].
  rewrite split_message_unfold.
  destruct (negb (truthy (strip source))); [reflexivity|].
  apply scan_negative_max_len. exact Hneg.
Qed.

Lemma scan_cannot_split_length (recur : pystr -> run) :
  (forall s n, final (recur s) = Raised (CannotBeSplit n) -> n > max_len) ->
  forall children acc total n,
    final (scan max_len recur children acc total) = Raised (CannotBeSplit n) ->
    n > max_len.
Proof.
  intros Hrecur. induction children as [|element rest IH];
    intros acc total n Hfin.
  - rewrite final_scan_nil in Hfin. discriminate.
  - destruct (scan_turn max_len element acc total)
      as [_ E | _ Hl _ E | _ _ _ _ E | i sp _ _ _ _ _ E
          | i sp _ _ _ _ _ E | _ _ _ E | _ _ _ E];
      rewrite E in Hfin.
    + eapply IH; eassumption.
    + injection Hfin as <-. exact Hl.
    + discriminate.
    + discriminate.
    + rewrite final_yield in Hfin.
      remember (recur (str_soup (skipn (S i) (contents_of element)))) as g
        eqn:Eg.
      destruct (final g) eqn:Hg.
      * rewrite yield_from_returned in Hfin by assumption. simpl in Hfin.
        eapply IH; eassumption.
      * rewrite (yield_from_raised g _ e) in Hfin by assumption.
        apply (Hrecur (str_soup (skipn (S i) (contents_of element)))).
        rewrite <- Eg. congruence.
      * rewrite yield_from_not_returned in Hfin by congruence. congruence.
    + destruct (truthy acc); [rewrite final_yield in Hfin|];
        eapply IH; eassumption.
    + eapply IH; eassumption.
Qed.

(** X7.  The length reported by "Element of length ... cannot be split" is
    always over [max_len], at whatever depth of the recursion the error
    was raised. *)
Theorem cannot_be_split_length_is_oversized (parse : pystr -> soup)
  (depth : nat) (source : pystr) (n : Z) :
  final (split_message max_len parse depth source)
  = Raised (CannotBeSplit n) ->
  n > max_len.
Proof.
  revert source n. induction depth as [|depth IH]; intros source n;
    [discriminate|].
  rewrite split_message_unfold.
  destruct (negb (truthy (strip source))); [discriminate|].
  apply scan_cannot_split_length. exact IH.
Qed.

End Budget.

Lemma negative_max_len_yields_nothing_witness :
  -1 < 0
  /\ yielded (split_message (-1) HtmlParser.parse 3
                (u "<div><b>aa</b><i>bb</i></div>")) = [].
Proof.
  split; [reflexivity|].
  apply (negative_max_len_yields_nothing (-1) HtmlParser.parse 3).
  reflexivity.
Defined.

Lemma cannot_be_split_length_is_oversized_witness :
  let source := u "<i><b>aa</b><u>cc</u><p>ddddd</p></i>" in
  final (split_message 10 HtmlParser.parse 2 source)
  = Raised (CannotBeSplit 12)
  /\ 12 > 10.
Proof.
  cbv zeta.
  assert (H : final (split_message 10 HtmlParser.parse 2
                       (u "<i><b>aa</b><u>cc</u><p>ddddd</p></i>"))
              = Raised (CannotBeSplit 12)) by (vm_compute; reflexivity).
  split; [exact H|].
  exact (cannot_be_split_length_is_oversized 10 HtmlParser.parse 2 _ 12 H).
Defined.

(** X8.  With no oversized node, and no top-level string holding a character
    that is written as an entity, every fragment is within [max_len]. *)
Theorem plain_fitting_nodes_give_fitting_fragments (max_len : Z)
  (parse : pystr -> soup) (depth : nat) (source : pystr) :
  Forall (passes max_len) (parse source) ->
  (forall text, In (NavigableString text) (parse source) ->
                substitute_xml text = text) ->
  Forall (fits max_len) (yielded (split_message max_len parse depth source)).
Proof.
  intros Hpass Hplain. destruct depth as [|depth]; [constructor|].
  rewrite split_message_unfold.
  destruct (negb (truthy (strip source))); [constructor|].
  rewrite (scan_passes_no_recursion max_len _ (fun _ => ret) _ Hpass).
  apply (scan_fits max_len (fun _ => ret));
    [intros; constructor | exact Hplain | reflexivity | left; reflexivity].
Qed.

Lemma plain_fitting_nodes_give_fitting_fragments_witness :
  let source := u "<p>a</p> <p>b</p> xy <i>c</i>" in
  Forall (passes 10) (HtmlParser.parse source)
  /\ (forall text, In (NavigableString text) (HtmlParser.parse source) ->
                   substitute_xml text = text)
  /\ Forall (fits 10) (yielded (split_message 10 HtmlParser.parse 1 source)).
Proof.
  cbv zeta.
  assert (Hpass : Forall (passes 10)
            (HtmlParser.parse (u "<p>a</p> <p>b</p> xy <i>c</i>"))).
  { let l := eval vm_compute in
      (HtmlParser.parse (u "<p>a</p> <p>b</p> xy <i>c</i>")) in
    change (Forall (passes 10) l).
    repeat (constructor;
            [first [left; reflexivity | right; vm_compute; discriminate]|]).
    constructor. }
  assert (Hplain : forall text,
            In (NavigableString text)
               (HtmlParser.parse (u "<p>a</p> <p>b</p> xy <i>c</i>")) ->
            substitute_xml text = text).
  { intros text Hin. vm_compute in Hin.
    repeat (destruct Hin as [Hin|Hin];
            [try discriminate Hin; injection Hin as <-; reflexivity|]).
    destruct Hin. }
  split; [exact Hpass|]. split; [exact Hplain|].
  exact (plain_fitting_nodes_give_fitting_fragments 10 HtmlParser.parse 1 _
           Hpass Hplain).
Defined.

(** ** When the locator finds a split point *)

Lemma tags_length_nonneg (children : list node) : 0 <= tags_length children.
Proof.
  induction children as [|c l IH]; simpl; [lia|]. fold (tags_length l).
  pose proof (len_nonneg (str_element c)). destruct (is_Tag c); lia.
Qed.

Lemma tags_length_no_tag (children : list node) :
  existsb is_Tag children = false -> tags_length children = 0.
Proof.
  induction children as [|c l IH]; simpl; [reflexivity|].
  fold (tags_length l). destruct (is_Tag c); simpl; [discriminate|exact IH].
Qed.

Lemma find_from_none_iff (max_len : Z) (children : list node) :
  forall index start,
    find_from max_len children index start = None
    <-> (existsb is_Tag children = false
         \/ start + tags_length children <= max_len).
Proof.
  induction children as [|child rest IH]; intros index start.
  - simpl. split; auto.
  - simpl find_from. simpl existsb. simpl tags_length.
    fold (tags_length rest).
    pose proof (tags_length_nonneg rest) as Hnn.
    destruct (is_Tag child) eqn:Htag; simpl orb.
    + destruct (start + len (str_element child) >? max_len) eqn:Hover.
      * apply Z.gtb_lt in Hover.
        split; [discriminate | intros [H|H]; [discriminate | lia]].
      * assert (Hfit : start + len (str_element child) <= max_len).
        { destruct (Z.gtb_spec (start + len (str_element child)) max_len);
            [discriminate | lia]. }
        rewrite IH. split.
        -- intros [H|H]; right; [rewrite (tags_length_no_tag rest H)|]; lia.
        -- intros [H|H]; [discriminate | right; lia].
    + apply IH.
Qed.

Lemma can_be_split_existsb (element : node) :
  _can_be_split element = existsb is_Tag (contents_of element).
Proof. destruct element as [|name attrs e [|c l]]; reflexivity. Qed.

(** X9.  The locator returns nothing exactly when the element cannot be split
    (it has no [Tag] child) or its [Tag] children, added to the starting
    length, stay within [max_len]; otherwise it returns a split point. *)
Theorem find_split_point_none_iff (max_len : Z) (element : node) (start : Z) :
  _find_split_point max_len element start = None
  <-> (_can_be_split element = false
       \/ start + tags_length (contents_of element) <= max_len).
Proof.
  rewrite can_be_split_existsb. unfold _find_split_point.
  destruct element as [text | name attrs e contents]; simpl negb; cbv iota.
  - simpl. split; auto.
  - apply find_from_none_iff.
Qed.

(** X10.  An oversized node with a [Tag] child whose [Tag] children together
    stay within [max_len] (the excess is in its strings or in its own
    start and end tags) ends the run with "Cannot find suitable split
    point". *)
Theorem tags_that_fit_give_no_split_point (max_len : Z)
  (recur : pystr -> run) (element : node) (rest acc : list node) (total : Z) :
  len (str_element element) > max_len ->
  _can_be_split element = true ->
  tags_length (contents_of element) <= max_len ->
  scan max_len recur (element :: rest) acc total = raise NoSplitPoint.
Proof.
  intros Hl Hcan Hfit.
  assert (Hnone : _find_split_point max_len element 0 = None).
  { unfold _find_split_point.
    destruct element as [text | name attrs e contents]; [reflexivity|].
    apply find_from_none_iff. right. simpl in Hfit |- *. lia. }
  destruct (scan_turn max_len element acc total)
    as [Hs E | _ _ Hc E | _ _ _ _ E | i sp _ _ _ Hf _ E
        | i sp _ _ _ Hf _ E | _ Hl' _ E | _ Hl' _ E];
    [ destruct element; [discriminate Hcan | discriminate Hs]
    | congruence | apply E | congruence | congruence | lia | lia ].
Qed.

Lemma tags_that_fit_give_no_split_point_witness :
  let element :=
    Tag (u "div") [] false [Tag (u "b") [] false [NavigableString (u "x")]] in
  len (str_element element) > 10
  /\ _can_be_split element = true
  /\ tags_length (contents_of element) <= 10
  /\ scan 10 (fun _ => ret) [element] [] 0 = raise NoSplitPoint.
Proof.
  cbv zeta. split; [reflexivity|]. split; [reflexivity|].
  split; [vm_compute; discriminate|].
  apply (tags_that_fit_give_no_split_point 10);
    [reflexivity | reflexivity | vm_compute; discriminate].
Defined.

Lemma str_soup_tags (l : list node) :
  forallb is_Tag l = true -> len (str_soup l) = tags_length l.
Proof.
  induction l as [|c l IH]; [reflexivity|].
  intros H. apply andb_true_iff in H as [Hc Hl].
  change (str_soup (c :: l)) with (decode c ++ str_soup l).
  rewrite len_app, (IH Hl). simpl tags_length. fold (tags_length l).
  rewrite Hc. destruct c; [discriminate | reflexivity].
Qed.

(** X11.  When every child before the located split point is a [Tag] (and
    [max_len] is not negative), the first part fits and is yielded: "First
    part exceeds maximum length" needs a string before the split point. *)
Theorem first_part_of_tags_fits (max_len : Z) (recur : pystr -> run)
  (element : node) (rest acc : list node) (total : Z) (i : nat)
  (split_point : node) :
  0 <= max_len ->
  len (str_element element) > max_len ->
  _find_split_point max_len element 0 = Some (i, split_point) ->
  forallb is_Tag (firstn i (contents_of element)) = true ->
  scan max_len recur (element :: rest) acc total
  = yield (str_soup (firstn i (contents_of element)))
      (yield_from (recur (str_soup (skipn (S i) (contents_of element))))
         (scan max_len recur rest acc total)).
Proof.
  intros Hmax Hl Hfind Htags.
  apply (scan_split max_len recur element rest acc total i split_point);
    try assumption.
  unfold _estimate_length. rewrite (str_soup_tags _ Htags).
  unfold _find_split_point in Hfind.
  destruct (is_Tag element); simpl in Hfind; [|discriminate].
  pose proof (find_from_spec max_len [] (contents_of element) 0) as Hspec.
  simpl in Hspec. rewrite Hfind in Hspec.
  destruct Hspec as (Hn & _ & _ & Hbefore).
  destruct i as [|j]; [simpl; exact Hmax|].
  destruct (nth_error (contents_of element) j) as [d|] eqn:Hd.
  - rewrite (firstn_snoc _ _ _ Hd) in Htags |- *.
    rewrite forallb_app in Htags. apply andb_true_iff in Htags as [_ Hdt].
    simpl in Hdt. rewrite andb_true_r in Hdt.
    rewrite tags_length_snoc, Hdt.
    specialize (Hbefore j d). unfold running_total in Hbefore.
    simpl in Hbefore. apply Hbefore; [lia | exact Hd | exact Hdt].
  - apply nth_error_None in Hd.
    assert (S j < List.length (contents_of element))%nat
      by (apply nth_error_Some; congruence).
    lia.
Qed.

Lemma first_part_of_tags_fits_witness :
  let element :=
    Tag (u "div") [] false
        [Tag (u "b") [] false [NavigableString (u "aa")];
         Tag (u "i") [] false [NavigableString (u "bb")];
         Tag (u "u") [] false [NavigableString (u "cc")]] in
  0 <= 20
  /\ len (str_element element) > 20
  /\ scan 20 (fun _ => ret) [element] [] 0
     = Run [u "<b>aa</b><i>bb</i>"] Returned.
Proof.
  cbv zeta. split; [discriminate|]. split; [reflexivity|].
  rewrite (first_part_of_tags_fits 20 (fun _ => ret) _ [] [] 0 2
             (Tag (u "u") [] false [NavigableString (u "cc")]));
    [reflexivity | discriminate | reflexivity | reflexivity | reflexivity].
Defined.

(** ** The command line *)




(** ** How far a fragment can pass the limit *)

Lemma len_substitute_xml (text : pystr) :
  len (substitute_xml text) <= 5 * len text.
Proof.
  induction text as [|c text IH]; [unfold len; simpl; lia|].
  change (substitute_xml (c :: text))
    with ((if (c =? chr_amp)%N then u "&amp;"
           else if (c =? chr_lt)%N then u "&lt;"
           else if (c =? chr_gt)%N then u "&gt;"
           else [c]) ++ substitute_xml text).
  rewrite len_app. change (c :: text) with ([c] ++ text). rewrite len_app.
  destruct (c =? chr_amp)%N; [|destruct (c =? chr_lt)%N;
                                [|destruct (c =? chr_gt)%N]];
    unfold len at 1 3; simpl List.length; lia.
Qed.

Lemma len_fragment_measured (group : list node) :
  len (str_soup (_create_fragment group [])) <= 5 * measured group.
Proof.
  induction group as [|n group IH]; [unfold len; simpl; lia|].
  change (n :: group) with ([n] ++ group).
  rewrite str_soup_fragment_app, len_app, measured_app.
  simpl measured at 1.
  assert (len (str_soup (_create_fragment [n] []))
          <= 5 * len (str_element n)).
  { destruct n as [text | name attrs e contents].
    - unfold str_soup. simpl. rewrite app_nil_r. apply len_substitute_xml.
    - rewrite str_soup_fragment_one by discriminate.
      pose proof (len_nonneg (str_element (Tag name attrs e contents))).
      lia. }
  lia.
Qed.

(** X13.  Whatever the parser and the source, no fragment is longer than five
    times [max_len]: a group of top-level nodes is counted with its strings
    as they stand, and a character written as an entity takes at most five
    characters. *)
Theorem fragments_at_most_five_times_max_len (max_len : Z)
  (parse : pystr -> soup) (depth : nat) (source : pystr) :
  Forall (fun fragment => len fragment <= 5 * max_len)
         (yielded (split_message max_len parse depth source)).
Proof.
  apply split_message_yields.
  - intros fragment Hfit. pose proof (len_nonneg fragment). lia.
  - intros group _ Hgroup. pose proof (len_fragment_measured group). lia.
Qed.
